(** * FreqShift: the block-processing step of the frequency shifter

    A shallow embedding of [FreqShift_i] (src/cpp/FreqShift.cpp): the
    constructor, the oscillator loop and the port calls of
    [serviceFunction], followed by the properties of one step and of
    whole executions.

    Numbers.  The C++ code computes in [float] and [double].  The
    embedding is written over a carrier [F] with the operations the
    code uses ([Scalar]); every structural theorem holds for any such
    carrier.  Conversions between the two precisions are not
    represented.  Theorems that need arithmetic identities ask for them
    explicitly ([ScalarLaws]) and are exercised on the real numbers. *)

From Stdlib Require Import Reals.
From stdpp Require Import base list strings.

(** ** Arithmetic used by the component *)

Class Scalar (F : Type) := {
  of_nat : nat -> F;          (* integer literal or counter converted to floating point *)
  M_PI : F;
  fadd : F -> F -> F;
  fsub : F -> F -> F;
  fmul : F -> F -> F;
  fdiv : F -> F -> F;
  fcos : F -> F;
  fsin : F -> F
}.

(** The identities behind "a rotation by angle zero changes nothing". *)
Class ScalarLaws (F : Type) `{Scalar F} : Prop := {
  fmul_0_r : forall x : F, fmul x (of_nat 0) = of_nat 0;
  fmul_0_l : forall x : F, fmul (of_nat 0) x = of_nat 0;
  fmul_1_r : forall x : F, fmul x (of_nat 1) = x;
  fsub_0_r : forall x : F, fsub x (of_nat 0) = x;
  fadd_0_l : forall x : F, fadd (of_nat 0) x = x;
  fcos_0 : fcos (of_nat 0) = of_nat 1;
  fsin_0 : fsin (of_nat 0) = of_nat 0
}.

(** The real numbers as carrier: exact arithmetic. *)
#[export] Instance R_Scalar : Scalar R := {
  of_nat := INR;
  M_PI := PI;
  fadd := Rplus;
  fsub := Rminus;
  fmul := Rmult;
  fdiv := Rdiv;
  fcos := cos;
  fsin := sin
}.

(** ** Data model *)

Section Component.

Context {F : Type} {SF : Scalar F}.

(** [PrecisionUTCTime] is declared by the transport library; the
    component only hands the value on, so it is left abstract. *)
Context {PrecisionUTCTime : Type}.

(** [std::complex<float>]: real part, imaginary part. *)
Record complex := mk_complex { real : F; imag : F }.

(** The stream descriptor, restricted to what [serviceFunction] reads
    or writes.  [mode] is the descriptor's short integer: 0 for real
    samples, anything else for complex samples. *)
Record StreamSRI := {
  xdelta : F;
  mode : Z;
  sri_streamID : string
}.

(** What [getPacket] returns when a block is available.  [dataBuffer]
    is always a vector of floats; a complex block stores each sample as
    two consecutive floats (real part first). *)
Record dataTransfer := {
  dataBuffer : list F;
  T : PrecisionUTCTime;
  EOS : bool;
  streamID : string;
  SRI : StreamSRI;
  sriChanged : bool
}.

(** Calls made on the output port [float_out]. *)
Inductive port_call :=
| pushSRI (H : StreamSRI)
| pushPacket (d : list F) (t : PrecisionUTCTime) (eos : bool) (id : string).

Inductive retcode := NORMAL | NOOP.

(** The members of [FreqShift_i] touched by the source file.
    [frequency_shift] is the configurable property, [data] the output
    buffer kept between calls. *)
Record FreqShift_i := {
  frequency_shift : F;
  sampleRate : F;
  firstTime : bool;
  data : list F
}.

(** ** Views of a float vector as complex samples

    The cast [(vector<complex<float> > * )&tmp->dataBuffer] reads the
    floats two by two; a trailing odd float is not part of any sample. *)
Fixpoint as_complex (v : list F) : list complex :=
  match v with
  | re :: im :: v' => mk_complex re im :: as_complex v'
  | _ => []
  end.

Fixpoint as_float (v : list complex) : list F :=
  match v with
  | [] => []
  | z :: v' => real z :: imag z :: as_float v'
  end.

(** Number of samples of a block: one per float for a real block, one
    per pair of floats for a complex block. *)
Definition is_complex (tmp : dataTransfer) : bool :=
  negb (mode (SRI tmp) =? 0)%Z.

Definition samples (tmp : dataTransfer) : nat :=
  if is_complex tmp then length (as_complex (dataBuffer tmp))
  else length (dataBuffer tmp).

(** [tmp->SRI.mode = m] *)
Definition set_mode (m : Z) (h : StreamSRI) : StreamSRI :=
  {| xdelta := xdelta h; mode := m; sri_streamID := sri_streamID h |}.

(** ** Constructor *)

(** [frequency_shift] is initialised by the base class from the
    property file; its initial value [f0] is a parameter here. *)
Definition FreqShift_i_ctor (f0 : F) : FreqShift_i :=
  {| frequency_shift := f0;
     sampleRate := of_nat 0;
     firstTime := true;
     data := [] |}.

(** ** The oscillator loop *)

(** [float theta = 2*M_PI*frequency_shift*i*tmp->SRI.xdelta;] *)
Definition theta (f : F) (i : nat) (dt : F) : F :=
  fmul (fmul (fmul (fmul (of_nat 2) M_PI) f) (of_nat i)) dt.

(** [complex<float> complex_value(cos(theta), sin(theta));] *)
Definition complex_value (f : F) (i : nat) (dt : F) : complex :=
  mk_complex (fcos (theta f i dt)) (fsin (theta f i dt)).

(** The body of the [for] loop run [count] more times from index [i]:
    [complex_vector[i] = complex_value].  The counter is an [unsigned
    int]; a block arrives as a transport sequence whose length is a
    32-bit count, so the counter reaches the size without wrapping and
    is modelled by [nat]. *)
Fixpoint fill_loop (f dt : F) (count i : nat) (v : list complex)
  : list complex :=
  match count with
  | O => v
  | S count' => fill_loop f dt count' (S i) (<[i := complex_value f i dt]> v)
  end.

(** [complex_vector.resize(n)] on a fresh vector gives [n] zeros; the
    loop then overwrites indices [0 .. n-1]. *)
Definition complex_vector (f dt : F) (n : nat) : list complex :=
  fill_loop f dt n 0 (replicate n (mk_complex (of_nat 0) (of_nat 0))).

(** Lines 179-191 of the source: the local [complex_vector] once the
    loop has run, for a component [self] and an input block [tmp].  It
    is sized by [tmp->dataBuffer.size()], the number of floats. *)
Definition step_oscillator (self : FreqShift_i) (tmp : dataTransfer)
  : list complex :=
  complex_vector (frequency_shift self) (xdelta (SRI tmp))
                 (length (dataBuffer tmp)).

(** ** The mixer *)

Definition rmul (x : F) (y : complex) : complex :=
  mk_complex (fmul x (real y)) (fmul x (imag y)).

Definition cmul (x y : complex) : complex :=
  mk_complex (fsub (fmul (real x) (real y)) (fmul (imag x) (imag y)))
             (fadd (fmul (real x) (imag y)) (fmul (imag x) (real y))).

(** Modelled from the spec: [vectormultiply] is called by
    [serviceFunction] but defined outside FreqShift.cpp.  Spec 4.3: an
    elementwise multiply of the input sequence against the oscillator
    sequence, one result per input sample; a real sample [x] gives
    [(x*c, x*s)].  The results go to the float vector [data], two floats
    per sample.  Samples and oscillator elements are paired index by
    index; the spec asks for equal lengths, and [serviceFunction] never
    passes an oscillator shorter than the input. *)
Definition vectormultiply_real (input : list F) (osc : list complex)
  : list F :=
  as_float (zip_with rmul input osc).

(** Modelled from the spec: the overload of [vectormultiply] taking
    complex input.  Spec 4.3: [(a, b)] and [(c, s)] give
    [(a*c - b*s, a*s + b*c)], one result per input sample, and the two
    sequences must have equal lengths; spec 7: a length mismatch is an
    invariant violation, fatal to the step and not swallowed.  [None]
    is that fault: no product is delivered. *)
Definition vectormultiply_complex (input osc : list complex)
  : option (list F) :=
  if decide (length input = length osc)
  then Some (as_float (zip_with cmul input osc))
  else None.

(** [serviceFunction] has nothing around its call of [vectormultiply]:
    what [data] holds after a call with unequal lengths is decided by
    the body of [vectormultiply], which is outside FreqShift.cpp, and
    the spec does not give it.  It is left open: the component is
    modelled for every possible content, as a function of the call's
    arguments, and nothing is assumed about it. *)
Class MixerFault := {
  data_after_mismatch : list complex -> list complex -> list F
}.

Context {MF : MixerFault}.

(** ** One call of [serviceFunction]

    [tmp] is the result of [float_in->getPacket(BLOCKING)].  The result
    is the return code, the component afterwards and the calls made on
    [float_out], in order. *)
Definition serviceFunction (tmp : option dataTransfer) (self : FreqShift_i)
  : retcode * FreqShift_i * list port_call :=
  match tmp with
  | None => (NOOP, self, [])
  | Some tmp =>
      let sampleRate' := fdiv (of_nat 1) (xdelta (SRI tmp)) in
      let osc := step_oscillator self tmp in
      let data' :=
        if is_complex tmp
        then match vectormultiply_complex (as_complex (dataBuffer tmp)) osc with
             | Some product => product
             | None => data_after_mismatch (as_complex (dataBuffer tmp)) osc
             end
        else vectormultiply_real (dataBuffer tmp) osc in
      let '(announce, firstTime') :=
        if firstTime self
        then ([pushSRI (set_mode 1 (SRI tmp))], false)
        else ([], firstTime self) in
      (NORMAL,
       {| frequency_shift := frequency_shift self;
          sampleRate := sampleRate';
          firstTime := firstTime';
          data := data' |},
       announce ++ [pushPacket data' (T tmp) (EOS tmp) (streamID tmp)])
  end.

(** [getPacket] returned a null pointer. *)
Definition no_block : option dataTransfer := None.

Definition step_ret (tmp : option dataTransfer) (self : FreqShift_i) : retcode :=
  (serviceFunction tmp self).1.1.

Definition step_self (tmp : option dataTransfer) (self : FreqShift_i)
  : FreqShift_i :=
  (serviceFunction tmp self).1.2.

Definition step_calls (tmp : option dataTransfer) (self : FreqShift_i)
  : list port_call :=
  (serviceFunction tmp self).2.

(** ** Executions

    Between two calls of [serviceFunction] the property
    [frequency_shift] may be reconfigured. *)
Inductive action :=
| configure (f : F)
| service (tmp : option dataTransfer).

Definition set_frequency_shift (f : F) (self : FreqShift_i) : FreqShift_i :=
  {| frequency_shift := f;
     sampleRate := sampleRate self;
     firstTime := firstTime self;
     data := data self |}.

(** The component together with everything [float_out] has received. *)
Definition perform (a : action) (c : FreqShift_i * list port_call)
  : FreqShift_i * list port_call :=
  match a with
  | configure f => (set_frequency_shift f c.1, c.2)
  | service tmp => (step_self tmp c.1, c.2 ++ step_calls tmp c.1)
  end.

Definition run (acts : list action) (c : FreqShift_i * list port_call)
  : FreqShift_i * list port_call :=
  foldl (fun c a => perform a c) c acts.

Definition start (f0 : F) : FreqShift_i * list port_call :=
  (FreqShift_i_ctor f0, []).

(** The blocks processed by an execution, oldest first. *)
Definition processed (acts : list action) : list dataTransfer :=
  omap (fun a => match a with service (Some tmp) => Some tmp | _ => None end)
       acts.

Definition announcements (calls : list port_call) : list StreamSRI :=
  omap (fun c => match c with pushSRI h => Some h | _ => None end) calls.

Definition packets (calls : list port_call)
  : list (list F * PrecisionUTCTime * bool * string) :=
  omap (fun c => match c with
                 | pushPacket d t e i => Some (d, t, e, i)
                 | _ => None
                 end) calls.

(** What an execution from the constructor has done, by whether it has
    processed a block yet: before the first block nothing was pushed;
    from then on the output starts with the announcement made from the
    first block, then that block's packet, and holds no other
    announcement. *)
Definition history_ok (acts : list action) (c : FreqShift_i * list port_call)
  : Prop :=
  match processed acts with
  | [] => firstTime c.1 = true /\ c.2 = []
  | tmp0 :: _ =>
      firstTime c.1 = false
      /\ exists d rest,
           c.2 = pushSRI (set_mode 1 (SRI tmp0))
                 :: pushPacket d (T tmp0) (EOS tmp0) (streamID tmp0) :: rest
           /\ announcements rest = []
  end.

(** ** The loop with its machine counter

    [for (unsigned int i = 0; i < tmp->dataBuffer.size(); i++)]: the
    counter is 32 bits wide and [i++] wraps around, while the size it is
    compared with is not limited to 32 bits. *)
Definition uint_incr (i : Z) : Z := ((i + 1) mod 2 ^ 32)%Z.

(** The loop from counter value [i] on a vector of [size] elements.
    [fuel] bounds the number of times the loop condition is tested;
    [None] means the loop is still running when the fuel is used up. *)
Fixpoint fill_loop_uint (f dt : F) (fuel : nat) (size i : Z)
    (v : list complex) : option (list complex) :=
  match fuel with
  | O => None
  | S fuel' =>
      if (i <? size)%Z
      then fill_loop_uint f dt fuel' size (uint_incr i)
             (<[Z.to_nat i := complex_value f (Z.to_nat i) dt]> v)
      else Some v
  end.

Definition complex_vector_uint (f dt : F) (fuel n : nat)
  : option (list complex) :=
  fill_loop_uint f dt fuel (Z.of_nat n) 0
    (replicate n (mk_complex (of_nat 0) (of_nat 0))).

(** ** Observations on executions *)

(** A call of [serviceFunction] that finds no block. *)
Definition is_idle (a : action) : bool :=
  match a with
  | service None => true
  | _ => false
  end.

Definition without_idle (acts : list action) : list action :=
  List.filter (fun a => negb (is_idle a)) acts.

(** What [pushPacket] is given besides the samples. *)
Definition packet_tag (p : list F * PrecisionUTCTime * bool * string)
  : PrecisionUTCTime * bool * string :=
  (p.1.1.2, p.1.2, p.2).

Definition block_tag (tmp : dataTransfer) : PrecisionUTCTime * bool * string :=
  (T tmp, EOS tmp, streamID tmp).

(** The samples of the latest packet pushed, if any. *)
Definition last_payload (calls : list port_call) : list F :=
  match last (packets calls) with
  | Some p => p.1.1.1
  | None => []
  end.

End Component.

(** To run the component on sample blocks the open content has to be
    something: here the call leaves [data] empty.  No theorem depends on
    this choice. *)
#[export] Instance R_MixerFault : @MixerFault R := {
  data_after_mismatch := fun _ _ => []
}.

(** ** Sample blocks

    Concrete blocks over the real numbers, with whole seconds as
    timestamps, used to exercise the component. *)

(** The real block [1; 2; 3] with spacing 1. *)
Definition real_block : @dataTransfer R nat :=
  {| dataBuffer := [of_nat 1; of_nat 2; of_nat 3];
     T := 7;
     EOS := false;
     streamID := "in";
     SRI := {| xdelta := of_nat 1; mode := 0; sri_streamID := "in" |};
     sriChanged := true |}.

(** A complex block of one sample, [1 + 2i], stored as two floats; its
    descriptor is flagged as changed. *)
Definition complex_block : @dataTransfer R nat :=
  {| dataBuffer := [of_nat 1; of_nat 2];
     T := 8;
     EOS := false;
     streamID := "in";
     SRI := {| xdelta := of_nat 1; mode := 1; sri_streamID := "in" |};
     sriChanged := true |}.

(** A real block of two samples whose spacing is 0. *)
Definition zero_spacing_block : @dataTransfer R nat :=
  {| dataBuffer := [of_nat 4; of_nat 5];
     T := 9;
     EOS := true;
     streamID := "in";
     SRI := {| xdelta := of_nat 0; mode := 0; sri_streamID := "in" |};
     sriChanged := false |}.

(** * Properties *)

Section Properties.

Context {F : Type} {SF : Scalar F} {MF : @MixerFault F}.
Context {PrecisionUTCTime : Type}.

Implicit Types (v : list F) (w osc : list (@complex F)).
Implicit Types (tmp : @dataTransfer F PrecisionUTCTime).
Implicit Types (self : @FreqShift_i F).
Implicit Types (acts : list (@action F PrecisionUTCTime)).

(** ** Float and complex views *)

Lemma as_complex_as_float w : as_complex (as_float w) = w.
Proof.
  induction w as [|[re im] w IH]; simpl; [done|]. by rewrite IH.
Qed.

Lemma length_as_float w : length (as_float w) = 2 * length w.
Proof.
  induction w as [|[re im] w IH]; simpl; [done|]. rewrite IH. lia.
Qed.

Lemma length_as_complex v : length (as_complex v) = length v / 2.
Proof.
  induction v as [v IH] using (induction_ltof1 _ length).
  destruct v as [|re [|im v']]; [done..|].
  cbn [as_complex length]. rewrite IH.
  - change (S (S (length v'))) with (1 * 2 + length v').
    rewrite Nat.div_add_l by lia. lia.
  - unfold ltof. simpl. lia.
Qed.

(** ** The oscillator loop *)

Lemma length_fill_loop f dt count i w :
  length (fill_loop f dt count i w) = length w.
Proof.
  revert i w. induction count as [|count IH]; intros i w; simpl; [done|].
  by rewrite IH, length_insert.
Qed.

(** Loop invariant: after [count] iterations from index [i], the
    indices [i .. i+count-1] hold their oscillator value and all others
    are as before. *)
Lemma fill_loop_lookup f dt count i w j :
  i + count <= length w ->
  fill_loop f dt count i w !! j =
    if decide (i <= j < i + count) then Some (complex_value f j dt)
    else w !! j.
Proof.
  revert i w. induction count as [|count IH]; intros i w Hlen; simpl.
  - case_decide; [lia|done].
  - rewrite IH by (rewrite length_insert; lia).
    destruct (decide (j = i)) as [->|Hne].
    + rewrite (decide_True (P := i <= i < i + S count)) by lia.
      case_decide; [lia|]. apply list_lookup_insert_eq. lia.
    + rewrite list_lookup_insert_ne by done.
      repeat case_decide; done || lia.
Qed.

Lemma length_complex_vector f dt n : length (complex_vector f dt n) = n.
Proof.
  unfold complex_vector. by rewrite length_fill_loop, length_replicate.
Qed.

Lemma length_step_oscillator self tmp :
  length (step_oscillator self tmp) = length (dataBuffer tmp).
Proof. apply length_complex_vector. Qed.

Lemma complex_vector_lookup f dt n i :
  i < n -> complex_vector f dt n !! i = Some (complex_value f i dt).
Proof.
  intros Hi. unfold complex_vector.
  rewrite fill_loop_lookup by (rewrite length_replicate; lia).
  case_decide; [done|lia].
Qed.

(** The loop computes the table of oscillator values. *)
Lemma complex_vector_closed_form f dt n :
  complex_vector f dt n = (fun i => complex_value f i dt) <$> seq 0 n.
Proof.
  apply list_eq. intros i. rewrite list_lookup_fmap.
  destruct (decide (i < n)) as [Hi|Hi].
  - rewrite complex_vector_lookup by done.
    by rewrite lookup_seq_lt.
  - rewrite lookup_seq_ge by lia. apply lookup_ge_None.
    rewrite length_complex_vector. lia.
Qed.

Lemma step_oscillator_lookup self tmp i :
  i < length (dataBuffer tmp) ->
  step_oscillator self tmp !! i
  = Some (complex_value (frequency_shift self) i (xdelta (SRI tmp))).
Proof. apply complex_vector_lookup. Qed.

(** For a block tagged real-valued the oscillator has one element per
    sample. *)
Lemma length_step_oscillator_real self tmp :
  mode (SRI tmp) = 0%Z -> length (step_oscillator self tmp) = samples tmp.
Proof.
  intros Hmode. rewrite length_step_oscillator. unfold samples, is_complex.
  by rewrite Hmode.
Qed.

(** ** The mixer *)

Lemma as_complex_vectormultiply_real v osc :
  as_complex (vectormultiply_real v osc) = zip_with rmul v osc.
Proof. apply as_complex_as_float. Qed.

(** On equal lengths the complex mixer delivers the products. *)
Lemma vectormultiply_complex_equal_lengths w osc :
  length w = length osc ->
  exists d, vectormultiply_complex w osc = Some d
            /\ as_complex d = zip_with cmul w osc.
Proof.
  intros Hlen. unfold vectormultiply_complex. rewrite decide_True by done.
  eexists. split; [reflexivity|apply as_complex_as_float].
Qed.

Lemma vectormultiply_complex_mismatch w osc :
  length w <> length osc -> vectormultiply_complex w osc = None.
Proof.
  intros Hlen. unfold vectormultiply_complex. by rewrite decide_False.
Qed.

(** ** One step on an available block *)

Lemma is_complex_real tmp : mode (SRI tmp) = 0%Z -> is_complex tmp = false.
Proof. unfold is_complex. by intros ->. Qed.

Lemma is_complex_complex tmp : mode (SRI tmp) <> 0%Z -> is_complex tmp = true.
Proof.
  unfold is_complex. intros Hm.
  destruct (Z.eqb_spec (mode (SRI tmp)) 0); [done|reflexivity].
Qed.

Ltac step_cases self :=
  unfold step_ret, step_self, step_calls, serviceFunction;
  destruct (firstTime self) eqn:?.

Lemma step_calls_Some self tmp :
  step_calls (Some tmp) self =
    (if firstTime self
     then [pushSRI (set_mode 1 (SRI tmp))]
     else [])
    ++ [pushPacket (data (step_self (Some tmp) self))
                   (T tmp) (EOS tmp) (streamID tmp)].
Proof. by step_cases self. Qed.

Lemma packets_step self tmp :
  packets (step_calls (Some tmp) self) =
    [(data (step_self (Some tmp) self), T tmp, EOS tmp, streamID tmp)].
Proof. rewrite step_calls_Some. by destruct (firstTime self). Qed.

Lemma announcements_step self tmp :
  announcements (step_calls (Some tmp) self) =
    if firstTime self
    then [set_mode 1 (SRI tmp)]
    else [].
Proof. rewrite step_calls_Some. by destruct (firstTime self). Qed.

Lemma data_step self tmp :
  data (step_self (Some tmp) self) =
    let osc := step_oscillator self tmp in
    if is_complex tmp
    then match vectormultiply_complex (as_complex (dataBuffer tmp)) osc with
         | Some product => product
         | None => data_after_mismatch (as_complex (dataBuffer tmp)) osc
         end
    else vectormultiply_real (dataBuffer tmp) osc.
Proof. by step_cases self. Qed.

(** For a block tagged complex that holds a sample, the step calls the
    mixer with fewer samples than oscillator elements: the call is
    outside the domain spec 4.3 gives the mixer, and the samples pushed
    are whatever that call leaves in [data]. *)
Lemma complex_step_outside_mixer_domain self tmp :
  mode (SRI tmp) <> 0%Z ->
  1 <= samples tmp ->
  length (as_complex (dataBuffer tmp)) < length (step_oscillator self tmp)
  /\ vectormultiply_complex (as_complex (dataBuffer tmp))
                            (step_oscillator self tmp) = None
  /\ data (step_self (Some tmp) self)
     = data_after_mismatch (as_complex (dataBuffer tmp))
                           (step_oscillator self tmp).
Proof.
  intros Hmode Hn. unfold samples in Hn.
  rewrite (is_complex_complex _ Hmode) in Hn.
  assert (length (as_complex (dataBuffer tmp))
          < length (step_oscillator self tmp)) as Hlt.
  { rewrite length_step_oscillator. rewrite length_as_complex in *.
    pose proof (Nat.div_mod_eq (length (dataBuffer tmp)) 2). lia. }
  assert (vectormultiply_complex (as_complex (dataBuffer tmp))
                                 (step_oscillator self tmp) = None) as Hnone.
  { apply vectormultiply_complex_mismatch. lia. }
  split; [exact Hlt|]. split; [exact Hnone|].
  rewrite data_step, (is_complex_complex _ Hmode). cbn zeta.
  by rewrite Hnone.
Qed.

Lemma firstTime_step self tmp : firstTime (step_self (Some tmp) self) = false.
Proof. by step_cases self. Qed.

Lemma sampleRate_step self tmp :
  sampleRate (step_self (Some tmp) self) = fdiv (of_nat 1) (xdelta (SRI tmp)).
Proof. by step_cases self. Qed.

(** C1. For a block tagged real-valued, sample [i] of the emitted block
    is [(x_i * cos th, x_i * sin th)] with [th = 2*pi*f*i*dt], where [f]
    is the shift frequency configured when the step runs and [dt] the
    block's spacing.  (The spacing need not be positive for this.) *)
Theorem real_block_output self tmp i x :
  mode (SRI tmp) = 0%Z ->
  dataBuffer tmp !! i = Some x ->
  let th := fmul (fmul (fmul (fmul (of_nat 2) M_PI) (frequency_shift self))
                       (of_nat i))
                 (xdelta (SRI tmp)) in
  exists d,
    packets (step_calls (Some tmp) self) = [(d, T tmp, EOS tmp, streamID tmp)]
    /\ as_complex d !! i = Some (mk_complex (fmul x (fcos th)) (fmul x (fsin th))).
Proof.
  intros Hmode Hx th. eexists. split; [apply packets_step|].
  rewrite data_step, (is_complex_real _ Hmode). cbn zeta.
  rewrite as_complex_vectormultiply_real, lookup_zip_with, Hx.
  rewrite step_oscillator_lookup by (by eapply lookup_lt_Some).
  reflexivity.
Qed.

(** For a block tagged real-valued the emitted block has as many
    samples as the input block. *)
Lemma output_sample_count_real self tmp :
  mode (SRI tmp) = 0%Z ->
  exists d,
    packets (step_calls (Some tmp) self) = [(d, T tmp, EOS tmp, streamID tmp)]
    /\ length (as_complex d) = samples tmp.
Proof.
  intros Hmode. eexists. split; [apply packets_step|].
  rewrite data_step. unfold samples. rewrite (is_complex_real _ Hmode).
  cbn zeta. rewrite as_complex_vectormultiply_real.
  apply length_zip_with_l. by rewrite length_step_oscillator.
Qed.

(** C7. A step that finds no input block returns [NOOP] and does
    nothing else: the component (sample rate and first-time flag
    included) is unchanged and no call is made on the output port. *)
Theorem no_data_step self :
  let tmp : option (@dataTransfer F PrecisionUTCTime) := no_block in
  serviceFunction tmp self = (NOOP, self, [])
  /\ sampleRate (step_self tmp self) = sampleRate self
  /\ firstTime (step_self tmp self) = firstTime self
  /\ packets (step_calls tmp self) = []
  /\ announcements (step_calls tmp self) = [].
Proof. by repeat split. Qed.

(** C9. A step on an available block returns [NORMAL] and emits
    exactly one block, which carries the timestamp, the end-of-stream
    flag and the stream identifier of the input block. *)
Theorem output_metadata self tmp :
  step_ret (Some tmp) self = NORMAL
  /\ exists d pre,
       step_calls (Some tmp) self
       = pre ++ [pushPacket d (T tmp) (EOS tmp) (streamID tmp)]
       /\ packets pre = [].
Proof.
  split.
  - by step_cases self.
  - eexists _, _. split; [apply step_calls_Some|]. by destruct (firstTime self).
Qed.

(** ** Executions *)

Lemma run_snoc acts a c : run (acts ++ [a]) c = perform a (run acts c).
Proof. unfold run. by rewrite foldl_snoc. Qed.

Lemma processed_snoc acts a :
  processed (acts ++ [a]) =
    processed acts ++ match a with service (Some tmp) => [tmp] | _ => [] end.
Proof.
  unfold processed. rewrite omap_app. by destruct a as [f|[tmp|]].
Qed.

Lemma run_history_ok f0 acts : history_ok acts (run acts (start f0)).
Proof.
  induction acts as [|a acts IH] using rev_ind; [done|].
  rewrite run_snoc. unfold history_ok in *. rewrite processed_snoc.
  destruct (run acts (start f0)) as [self calls]; simpl in IH.
  destruct a as [f|[tmp|]]; simpl; rewrite ?app_nil_r; try done.
  destruct (processed acts) as [|tmp0 done_before]; simpl.
  - destruct IH as [Hft ->]. split; [apply firstTime_step|].
    rewrite step_calls_Some, Hft. simpl. by eexists _, [].
  - destruct IH as [Hft (d & rest & -> & Hrest)].
    split; [apply firstTime_step|].
    rewrite step_calls_Some, Hft. simpl.
    eexists d, (rest ++ _). split; [done|].
    unfold announcements in *. by rewrite omap_app, Hrest.
Qed.

Lemma firstTime_run f0 acts :
  firstTime (run acts (start f0)).1
  = match processed acts with [] => true | _ => false end.
Proof.
  pose proof (run_history_ok f0 acts) as Hok. unfold history_ok in Hok.
  destruct (processed acts); tauto.
Qed.

(** C10. From construction until a block is processed the sample rate
    is 0; once blocks have been processed it is 1 divided by the
    spacing of the latest one. *)
Theorem sample_rate_tracks_spacing f0 acts :
  sampleRate (run acts (start f0)).1
  = match last (processed acts) with
    | None => of_nat 0
    | Some tmp => fdiv (of_nat 1) (xdelta (SRI tmp))
    end.
Proof.
  induction acts as [|a acts IH] using rev_ind; [done|].
  rewrite run_snoc, processed_snoc.
  destruct a as [f|[tmp|]]; simpl; rewrite ?app_nil_r; try done.
  by rewrite last_snoc, sampleRate_step.
Qed.

(** C4 (as the code has it). An execution announces the complex mode
    exactly once if it processes a block at all, and the announcement
    is made by the step that processes the first block.  Every later
    step makes none, whatever the [sriChanged] flag of its block. *)
Theorem announcement_once f0 acts :
  announcements (run acts (start f0)).2
  = match processed acts with
    | [] => []
    | tmp0 :: _ => [set_mode 1 (SRI tmp0)]
    end
  /\ forall tmp,
       announcements (step_calls (Some tmp) (run acts (start f0)).1)
       = match processed acts with
         | [] => [set_mode 1 (SRI tmp)]
         | _ :: _ => []
         end.
Proof.
  split.
  - pose proof (run_history_ok f0 acts) as Hok. unfold history_ok in Hok.
    destruct (processed acts) as [|tmp0 done_before].
    + destruct Hok as [_ ->]. done.
    + destruct Hok as [_ (d & rest & -> & Hrest)]. simpl. by rewrite Hrest.
  - intros tmp. rewrite announcements_step, firstTime_run.
    by destruct (processed acts).
Qed.

(** C8. In an execution that processes at least one block, the output
    port first receives the announcement, with the mode set to complex,
    and only then the first block. *)
Theorem announcement_precedes_output f0 acts :
  processed acts <> [] ->
  exists h d t eos id rest,
    (run acts (start f0)).2 = pushSRI h :: pushPacket d t eos id :: rest
    /\ mode h = 1%Z.
Proof.
  intros Hsome.
  pose proof (run_history_ok f0 acts) as Hok. unfold history_ok in Hok.
  destruct (processed acts) as [|tmp0 done_before]; [done|].
  destruct Hok as [_ (d & rest & -> & _)].
  by eexists _, _, _, _, _, _.
Qed.

End Properties.

(** ** Zero shift frequency *)

Section ZeroShift.

Context {F : Type} {SF : Scalar F} {SL : ScalarLaws F}.
Context {MF : @MixerFault F}.
Context {PrecisionUTCTime : Type}.

Implicit Types (tmp : @dataTransfer F PrecisionUTCTime).
Implicit Types (self : @FreqShift_i F).

Lemma theta_zero i (dt : F) : theta (of_nat 0) i dt = of_nat 0.
Proof. unfold theta. by rewrite fmul_0_r, !fmul_0_l. Qed.

Lemma complex_value_zero i (dt : F) :
  complex_value (of_nat 0) i dt = mk_complex (of_nat 1) (of_nat 0).
Proof. unfold complex_value. by rewrite theta_zero, fcos_0, fsin_0. Qed.

Lemma rmul_unit (x : F) :
  rmul x (mk_complex (of_nat 1) (of_nat 0)) = mk_complex x (of_nat 0).
Proof. unfold rmul. simpl. by rewrite fmul_1_r, fmul_0_r. Qed.

(** Multiplying by an oscillator at frequency zero that is at least as
    long as the input. *)
Lemma zip_with_zero_oscillator {A} (g : A -> @complex F -> @complex F)
    (h : A -> @complex F) (l : list A) (dt : F) n :
  length l <= n ->
  (forall x, g x (mk_complex (of_nat 1) (of_nat 0)) = h x) ->
  zip_with g l (complex_vector (of_nat 0) dt n) = h <$> l.
Proof.
  intros Hlen Hg. apply list_eq. intros i.
  rewrite lookup_zip_with, list_lookup_fmap.
  destruct (l !! i) as [x|] eqn:Hx; simpl; [|done].
  apply lookup_lt_Some in Hx.
  rewrite complex_vector_lookup by lia. simpl.
  by rewrite complex_value_zero, Hg.
Qed.

(** With the shift frequency set to 0, a block tagged real-valued is
    emitted as it came, each sample [x] as [(x, 0)]; the real block
    [1; 2; 3] with spacing 1 gives [(1,0); (2,0); (3,0)].  The
    arithmetic identities used are those of [ScalarLaws]. *)
Lemma zero_shift_identity_real self tmp :
  frequency_shift self = of_nat 0 ->
  mode (SRI tmp) = 0%Z ->
  exists d,
    packets (step_calls (Some tmp) self) = [(d, T tmp, EOS tmp, streamID tmp)]
    /\ as_complex d = (fun x => mk_complex x (of_nat 0)) <$> dataBuffer tmp
    /\ (dataBuffer tmp = [of_nat 1; of_nat 2; of_nat 3] ->
        xdelta (SRI tmp) = of_nat 1 ->
        as_complex d = [mk_complex (of_nat 1) (of_nat 0);
                        mk_complex (of_nat 2) (of_nat 0);
                        mk_complex (of_nat 3) (of_nat 0)]).
Proof.
  intros Hf Hmode.
  assert (as_complex (data (step_self (Some tmp) self))
          = (fun x => mk_complex x (of_nat 0)) <$> dataBuffer tmp) as Hid.
  { rewrite data_step, (is_complex_real _ Hmode). cbn zeta.
    unfold step_oscillator. rewrite Hf, as_complex_vectormultiply_real.
    apply zip_with_zero_oscillator; [done|apply rmul_unit]. }
  eexists. split; [apply packets_step|]. split; [exact Hid|].
  intros Hbuf _. by rewrite Hid, Hbuf.
Qed.

End ZeroShift.

(** * Further properties of the source *)

Section Loop.

Context {F : Type} {SF : Scalar F} {PrecisionUTCTime : Type}.

Implicit Types (v : list F) (w : list (@complex F)).
Implicit Types (tmp : @dataTransfer F PrecisionUTCTime).
Implicit Types (self : @FreqShift_i F).

Lemma fill_loop_from_any f dt count i w j :
  i + count = length w -> i <= j ->
  fill_loop f dt count i w !! j
  = if decide (j < length w) then Some (complex_value f j dt) else None.
Proof.
  intros Hlen Hj. rewrite fill_loop_lookup by lia.
  repeat case_decide; try done; try lia.
  apply lookup_ge_None. lia.
Qed.

(** X1. Postcondition of the oscillator loop: run over a vector of [n]
    elements, whatever they hold, it leaves the table of
    [(cos th_i, sin th_i)] for [i = 0 .. n-1]; no element keeps its old
    value. *)
Theorem loop_overwrites_every_element f dt n w :
  length w = n ->
  fill_loop f dt n 0 w = (fun i => complex_value f i dt) <$> seq 0 n.
Proof.
  intros Hn. apply list_eq. intros j.
  rewrite fill_loop_from_any by lia. rewrite list_lookup_fmap.
  case_decide.
  - by rewrite lookup_seq_lt by lia.
  - by rewrite lookup_seq_ge by lia.
Qed.

Lemma uint_incr_small (i : nat) :
  (Z.of_nat i + 1 < 2 ^ 32)%Z -> uint_incr (Z.of_nat i) = Z.of_nat (S i).
Proof.
  intros Hi. unfold uint_incr. rewrite Z.mod_small by lia. lia.
Qed.

Lemma fill_loop_uint_runs f dt (n : nat) count : forall i w fuel,
  (Z.of_nat n < 2 ^ 32)%Z ->
  i + count = n ->
  count < fuel ->
  fill_loop_uint f dt fuel (Z.of_nat n) (Z.of_nat i) w
  = Some (fill_loop f dt count i w).
Proof.
  induction count as [|count IH]; intros i w fuel Hn Hi Hfuel;
    (destruct fuel as [|fuel]; [lia|]); simpl.
  - destruct (Z.ltb_spec (Z.of_nat i) (Z.of_nat n)); [lia|done].
  - destruct (Z.ltb_spec (Z.of_nat i) (Z.of_nat n)); [|lia].
    rewrite uint_incr_small by lia. rewrite Nat2Z.id.
    apply IH; lia.
Qed.

(** X2. With its 32-bit counter the loop ends on every vector of fewer
    than 2^32 elements, after testing its condition [n + 1] times, and
    leaves what the loop over an unbounded counter leaves.  With fewer
    tests it is still running. *)
Theorem loop_ends_below_counter_range f dt n fuel :
  (Z.of_nat n < 2 ^ 32)%Z ->
  complex_vector_uint f dt fuel n
  = if decide (n < fuel) then Some (complex_vector f dt n) else None.
Proof.
  intros Hn. unfold complex_vector_uint, complex_vector. case_decide as Hfuel.
  - by apply (fill_loop_uint_runs f dt n n 0).
  - assert (forall count i w, fuel <= count -> i + count = n ->
              fill_loop_uint f dt fuel (Z.of_nat n) (Z.of_nat i) w = None)
      as Hshort.
    { clear Hfuel. induction fuel as [|fuel IH]; intros count i w Hc Hi;
        simpl; [done|].
      destruct count as [|count]; [lia|].
      destruct (Z.ltb_spec (Z.of_nat i) (Z.of_nat n)); [|lia].
      rewrite uint_incr_small by lia. apply (IH count); lia. }
    apply (Hshort n 0); lia.
Qed.

(** X4. The oscillator built by a step has one element per float of the
    buffer: as many as the block has samples when the block is tagged
    real, and twice as many (plus one for an odd trailing float) when it
    is tagged complex.  It is never shorter than the block. *)
Theorem oscillator_length_by_tag self tmp :
  length (step_oscillator self tmp)
  = (if is_complex tmp
     then 2 * samples tmp + length (dataBuffer tmp) mod 2
     else samples tmp)
  /\ samples tmp <= length (step_oscillator self tmp).
Proof.
  rewrite length_step_oscillator. unfold samples.
  destruct (is_complex tmp); [|done].
  rewrite length_as_complex.
  pose proof (Nat.div_mod_eq (length (dataBuffer tmp)) 2). lia.
Qed.

End Loop.

Section Executions.

Context {F : Type} {SF : Scalar F} {MF : @MixerFault F}.
Context {PrecisionUTCTime : Type}.

Implicit Types (tmp : @dataTransfer F PrecisionUTCTime).
Implicit Types (self : @FreqShift_i F).
Implicit Types (acts : list (@action F PrecisionUTCTime)).
Implicit Types (c : @FreqShift_i F * list (@port_call F PrecisionUTCTime)).

Lemma run_cons a acts c : run (a :: acts) c = run acts (perform a c).
Proof. reflexivity. Qed.

Lemma perform_idle c : perform (service None) c = c.
Proof. destruct c as [self calls]. simpl. by rewrite app_nil_r. Qed.

Lemma packets_app (calls calls' : list (@port_call F PrecisionUTCTime)) :
  packets (calls ++ calls') = packets calls ++ packets calls'.
Proof. apply omap_app. Qed.

Lemma announcements_app (calls calls' : list (@port_call F PrecisionUTCTime)) :
  announcements (calls ++ calls') = announcements calls ++ announcements calls'.
Proof. apply omap_app. Qed.




(** X6. Every processed block gives exactly one packet, in the order of
    arrival, with the block's timestamp, end-of-stream flag and stream
    identifier; steps without a block and reconfigurations give none. *)
Theorem one_packet_per_block_in_order f0 acts :
  packet_tag <$> packets (run acts (start f0)).2 = block_tag <$> processed acts.
Proof.
  induction acts as [|a acts IH] using rev_ind; [done|].
  rewrite run_snoc, processed_snoc.
  destruct a as [f|[tmp|]]; simpl; rewrite ?app_nil_r; try done.
  rewrite packets_app, !fmap_app, IH, packets_step. reflexivity.
Qed.

(** X7. Steps that find no block leave no trace: an execution and the
    same execution without them end with the same component and the same
    output. *)
Theorem idle_steps_leave_no_trace acts c :
  run (without_idle acts) c = run acts c.
Proof.
  revert c. induction acts as [|a acts IH]; intros c; [done|].
  destruct a as [f|[tmp|]]; unfold without_idle;
    cbn [List.filter is_idle negb]; fold (without_idle acts).
  - rewrite !run_cons. apply IH.
  - rewrite !run_cons. apply IH.
  - rewrite run_cons, perform_idle. apply IH.
Qed.

(** X8. The member [data] always holds the samples of the latest packet
    pushed (and is empty before the first one): a step without a block
    or a reconfiguration does not touch it. *)
Theorem data_is_latest_payload f0 acts :
  data (run acts (start f0)).1 = last_payload (run acts (start f0)).2.
Proof.
  induction acts as [|a acts IH] using rev_ind; [done|].
  rewrite run_snoc.
  destruct a as [f|[tmp|]]; simpl; rewrite ?app_nil_r; try done.
  unfold last_payload. by rewrite packets_app, packets_step, last_snoc.
Qed.

(** X9. Once the first-time flag is down nothing raises it again: from
    such a component no execution makes an announcement, whatever the
    blocks and their [sriChanged] flags. *)
Theorem no_announcement_after_first acts c :
  firstTime c.1 = false ->
  firstTime (run acts c).1 = false
  /\ announcements (run acts c).2 = announcements c.2.
Proof.
  intros Hft. induction acts as [|a acts [IHft IHann]] using rev_ind; [done|].
  rewrite run_snoc.
  destruct a as [f|[tmp|]]; simpl; rewrite ?app_nil_r; try done.
  split; [apply firstTime_step|].
  by rewrite announcements_app, announcements_step, IHft, app_nil_r.
Qed.

End Executions.

Section PhaseZero.

Context {F : Type} {SF : Scalar F} {SL : ScalarLaws F}.
Context {PrecisionUTCTime : Type}.

Implicit Types (tmp : @dataTransfer F PrecisionUTCTime).
Implicit Types (self : @FreqShift_i F).

(** X10. Whatever the shift frequency and the spacing, the oscillator
    of a non-empty block starts at [(1, 0)]: the angle of element 0 is
    [2*pi*f*0*dt = 0].  The arithmetic identities used are those of
    [ScalarLaws]. *)
Theorem oscillator_starts_at_one self tmp :
  dataBuffer tmp <> [] ->
  step_oscillator self tmp !! 0 = Some (mk_complex (of_nat 1) (of_nat 0)).
Proof.
  intros Hne. rewrite step_oscillator_lookup.
  - unfold complex_value, theta.
    by rewrite fmul_0_r, fmul_0_l, fcos_0, fsin_0.
  - destruct (dataBuffer tmp); [done|simpl; lia].
Qed.

(** X12. A block whose spacing is 0 is not rejected: every angle is
    [2*pi*f*i*0 = 0], so the oscillator is [(1, 0)] throughout and no
    shift is applied, whatever the shift frequency.  The arithmetic
    identities used are those of [ScalarLaws]. *)
Theorem zero_spacing_oscillator self tmp :
  xdelta (SRI tmp) = of_nat 0 ->
  step_oscillator self tmp
  = replicate (length (dataBuffer tmp)) (mk_complex (of_nat 1) (of_nat 0)).
Proof.
  intros Hdt. unfold step_oscillator.
  rewrite complex_vector_closed_form, Hdt.
  apply list_eq. intros i. rewrite list_lookup_fmap.
  destruct (decide (i < length (dataBuffer tmp))) as [Hi|Hi].
  - rewrite lookup_seq_lt, lookup_replicate_2 by done. simpl.
    unfold complex_value, theta. by rewrite fmul_0_r, fcos_0, fsin_0.
  - rewrite lookup_seq_ge by lia. symmetry. apply lookup_ge_None.
    rewrite length_replicate. lia.
Qed.

End PhaseZero.

(** * The component over the real numbers *)

#[export] Instance R_ScalarLaws : ScalarLaws R.
Proof.
  split; cbn; intros.
  - apply Rmult_0_r.
  - apply Rmult_0_l.
  - apply Rmult_1_r.
  - apply Rminus_0_r.
  - apply Rplus_0_l.
  - apply cos_0.
  - apply sin_0.
Qed.

(** C3, at a complex block.  [complex_block] holds one complex sample
    in two floats; the loop of [serviceFunction] runs once per float, so
    the oscillator it builds has two elements, not one. *)
Theorem oscillator_of_complex_block :
  samples complex_block = 1
  /\ length (step_oscillator (FreqShift_i_ctor (of_nat 1)) complex_block) = 2.
Proof. split; reflexivity. Qed.




(** C4, as stated, fails: after [real_block] has been processed, a
    step on [complex_block], whose [sriChanged] flag is set, makes no
    announcement. *)
Lemma changed_flag_not_reannounced :
  ~ (processed [service (Some real_block)] <> [] ->
     sriChanged complex_block = true ->
     announcements
       (step_calls (Some complex_block)
          (run [service (Some real_block)] (start (of_nat 1))).1) <> []).
Proof. intros Hforce. by apply Hforce. Qed.

Lemma real_block_output_witness :
  mode (SRI real_block) = 0%Z
  /\ dataBuffer real_block !! 1 = Some (of_nat 2)
  /\ exists d,
       packets (step_calls (Some real_block) (FreqShift_i_ctor (of_nat 5)))
       = [(d, 7, false, "in"%string)]
       /\ as_complex d !! 1
          = Some (mk_complex
                    (fmul (of_nat 2)
                       (fcos (fmul (fmul (fmul (fmul (of_nat 2) M_PI) (of_nat 5))
                                         (of_nat 1)) (of_nat 1))))
                    (fmul (of_nat 2)
                       (fsin (fmul (fmul (fmul (fmul (of_nat 2) M_PI) (of_nat 5))
                                         (of_nat 1)) (of_nat 1))))).
Proof.
  split; [reflexivity|]. split; [reflexivity|].
  apply (real_block_output (FreqShift_i_ctor (of_nat 5)) real_block 1 (of_nat 2));
    reflexivity.
Defined.

Lemma announcement_precedes_output_witness :
  processed [service (Some real_block)] <> []
  /\ exists h d t eos id rest,
       (run [service (Some real_block)] (start (of_nat 5))).2
       = pushSRI h :: pushPacket d t eos id :: rest
       /\ mode h = 1%Z.
Proof.
  split; [discriminate|].
  apply (announcement_precedes_output (of_nat 5) [service (Some real_block)]).
  discriminate.
Defined.

(** ** The further properties on sample inputs *)

Lemma loop_overwrites_every_element_witness :
  length [mk_complex (of_nat 5) (of_nat 6); mk_complex (of_nat 7) (of_nat 8)] = 2
  /\ fill_loop (of_nat 3) (of_nat 1) 2 0
       [mk_complex (of_nat 5) (of_nat 6); mk_complex (of_nat 7) (of_nat 8)]
     = (fun i => complex_value (of_nat 3) i (of_nat 1)) <$> seq 0 2.
Proof.
  split; [reflexivity|].
  apply (loop_overwrites_every_element (F := R)). reflexivity.
Defined.

Lemma loop_ends_below_counter_range_witness :
  (Z.of_nat 3 < 2 ^ 32)%Z
  /\ complex_vector_uint (of_nat 3) (of_nat 1) 4 3
     = if decide (3 < 4) then Some (complex_vector (of_nat 3) (of_nat 1) 3)
       else None.
Proof.
  split; [reflexivity|].
  apply (loop_ends_below_counter_range (F := R)). reflexivity.
Defined.


Lemma no_announcement_after_first_witness :
  firstTime (run [service (Some real_block)] (start (of_nat 5))).1 = false
  /\ firstTime (run [service (Some complex_block)]
                 (run [service (Some real_block)] (start (of_nat 5)))).1 = false
  /\ announcements (run [service (Some complex_block)]
                     (run [service (Some real_block)] (start (of_nat 5)))).2
     = announcements (run [service (Some real_block)] (start (of_nat 5))).2.
Proof.
  split; [reflexivity|].
  apply (no_announcement_after_first [service (Some complex_block)]
           (run [service (Some real_block)] (start (of_nat 5)))).
  reflexivity.
Defined.

Lemma oscillator_starts_at_one_witness :
  dataBuffer real_block <> []
  /\ step_oscillator (FreqShift_i_ctor (of_nat 5)) real_block !! 0
     = Some (mk_complex (of_nat 1) (of_nat 0)).
Proof.
  split; [discriminate|].
  apply (oscillator_starts_at_one (SL := R_ScalarLaws)). discriminate.
Defined.

Lemma zero_spacing_oscillator_witness :
  xdelta (SRI zero_spacing_block) = of_nat 0
  /\ step_oscillator (FreqShift_i_ctor (of_nat 5)) zero_spacing_block
     = replicate 2 (mk_complex (of_nat 1) (of_nat 0)).
Proof.
  split; [reflexivity|].
  apply (zero_spacing_oscillator (SL := R_ScalarLaws)). reflexivity.
Defined.
